(** * Folktale: [core/lambda/curry] and the documentation copier

  A shallow embedding of the two JavaScript source units

  - [src/core/lambda/curry.js]  ([curry], [curried], [unrollInvoke]);
  - the documentation helper    ([mm], [copyDocumentation]),

  together with the properties of their specification.

  JavaScript closures are represented by first-order data (a curried
  function is the record of what its closure captured), calls of functions
  that the library did not create are answered by a host table, and the
  object heap used by the documentation helper is a finite map. *)

From stdpp Require Import base numbers option list strings pretty gmap fin_maps.

(** ** The curry engine *)

Module Curry.

#[local] Set Warnings "-register-all".

Section Engine.

(** [H] names the functions that were not produced by [curry] (the target
    callables and whatever they return); [W] is everything such a function
    may read or write. *)
Context {H W : Type}.

(** JavaScript values, as far as the engine can tell them apart: it only
    ever asks whether a value can be called.  [VCurried arity fn oldArgs]
    is the function [curried(oldArgs)] created inside [curry(arity, fn)]:
    the three captured variables are its whole content. *)
Inductive value : Type :=
  | VUndefined
  | VNumber (n : Z)
  | VString (s : string)
  | VHost (h : H)
  | VCurried (arity : Z) (fn : value) (oldArgs : list value).

(** What a [throw] carries. *)
Inductive error : Type :=
  | NotCallable (v : value)   (* TypeError: v is not a function *)
  | Raised (v : value).       (* thrown by a host function *)

Inductive completion : Type :=
  | Return (v : value)
  | Throw (e : error).

(** The state threaded through a call: the hosts' world and the record of
    every host function invoked so far, with its argument list. *)
Record state : Type := mkState {
  world : W;
  invoked : list (H * list value)
}.

(** The behaviour of the host functions. *)
Variable host : H → list value → W → completion * W.

(** A computation; [None] is only produced when the fuel runs out. *)
Definition M : Type := state → option (completion * state).

Definition ret (v : value) : M := λ st, Some (Return v, st).

(** Sequencing: an abrupt completion of the first part skips the second. *)
Definition andThen (m : M) (k : value → M) : M := λ st,
  match m st with
  | Some (Return v, st') => k v st'
  | Some (Throw e, st') => Some (Throw e, st')
  | None => None
  end.

(** *** Array primitives

    [Array.prototype.concat] and [Array.prototype.slice] build new arrays
    and leave their receiver untouched, and the engine never stores into an
    array: arrays are immutable sequences here. *)
Definition Array_concat (a b : list value) : list value := a ++ b.

(** Relative index of [slice]: negative counts from the end, and the result
    is clamped to [0 .. len]. *)
Definition relIndex (len i : Z) : Z :=
  if (i <? 0)%Z then Z.max (len + i) 0 else Z.min i len.

Definition Array_slice (a : list value) (start : Z) (end_ : option Z)
    : list value :=
  let len := Z.of_nat (length a) in
  let k := relIndex len start in
  let final := match end_ with Some e => relIndex len e | None => len end in
  take (Z.to_nat (Z.max (final - k) 0)) (drop (Z.to_nat k) a).

(** *** The source functions *)

(** [curried(oldArgs)], the closure itself. *)
Definition curried (arity : Z) (fn : value) (oldArgs : list value) : value :=
  VCurried arity fn oldArgs.

(** [curry(arity, fn)] returns [curried([])]. *)
Definition curry (arity : Z) (fn : value) : value := curried arity fn [].

(** [unrollInvoke(fn_, arity_, args)]; [call] is function application. *)
Definition unrollInvoke (call : value → list value → M)
    (fn_ : value) (arity_ : Z) (args : list value) : M :=
  let firstFnArgs := Array_slice args 0 (Some arity_) in
  let secondFnArgs := Array_slice args arity_ None in
  andThen (call fn_ firstFnArgs) (λ v, call v secondFnArgs).

(** The body of [curried(oldArgs)], run on [newArgs]. *)
Definition curriedBody (call : value → list value → M)
    (arity : Z) (fn : value) (oldArgs newArgs : list value) : M :=
  let allArgs := Array_concat oldArgs newArgs in
  let argCount := Z.of_nat (length allArgs) in
  if (argCount <? arity)%Z then ret (curried arity fn allArgs)
  else if (argCount =? arity)%Z then call fn allArgs
  else unrollInvoke call fn arity allArgs.

(** Function application [f(...args)].  A host function is run on the
    world and recorded; a curried function runs its body; anything else is
    not a function.  The fuel bounds the depth of nested applications. *)
Fixpoint call (fuel : nat) (f : value) (args : list value) : M :=
  match fuel with
  | O => λ _, None
  | S fuel' =>
      match f with
      | VHost h => λ st,
          let '(c, w) := host h args (world st) in
          Some (c, mkState w (invoked st ++ [(h, args)]))
      | VCurried arity fn oldArgs =>
          curriedBody (call fuel') arity fn oldArgs args
      | _ => λ st, Some (Throw (NotCallable f), st)
      end
  end.

(** Successive calls [f(...c1)(...c2)...(...cn)]. *)
Fixpoint callSeq (fuel : nat) (f : value) (chunks : list (list value)) : M :=
  match chunks with
  | [] => ret f
  | c :: cs => andThen (call fuel f c) (λ v, callSeq fuel v cs)
  end.

Definition callable (v : value) : bool :=
  match v with
  | VHost _ | VCurried _ _ _ => true
  | _ => false
  end.

(** The accumulator captured by a continuation. *)
Definition accumulator (v : value) : option (list value) :=
  match v with
  | VCurried _ _ oldArgs => Some oldArgs
  | _ => None
  end.

(** What the caller of a function observes: the completion and the world. *)
Definition outcome (r : completion * state) : completion * W :=
  (r.1, world r.2).

(** The continuations exposed to the caller as still waiting: whatever a
    call on the continuation that [curry] returns, or on one exposed before,
    hands back without any function having been invoked on the way. *)
Inductive exposed (arity : Z) (fn : value) : value → Prop :=
  | exposed_first fuel newArgs st c' st' :
      call fuel (curry arity fn) newArgs st = Some (Return c', st') →
      invoked st' = invoked st →
      exposed arity fn c'
  | exposed_next fuel c newArgs st c' st' :
      exposed arity fn c →
      call fuel c newArgs st = Some (Return c', st') →
      invoked st' = invoked st →
      exposed arity fn c'.

End Engine.

Arguments value : clear implicits.
Arguments error : clear implicits.
Arguments completion : clear implicits.
Arguments state : clear implicits.
Arguments M : clear implicits.

(** *** Sample hosts

    A small host table over an empty world, with the functions used in the
    specification's examples, and one over a counter. *)
Inductive sampleFn : Type :=
  | Add                 (* (a, b) => a + b *)
  | Const42             (* () => 42 *)
  | F                   (* (a, b) => (c) => a + b + c *)
  | AddTo (k : Z)       (* the closure (c) => k + c returned by F *)
  | Sum3                (* (a, b, c) => a + b + c *)
  | Boom.               (* () => { throw "boom" } *)

(** Arithmetic is modelled on integer arguments; other argument lists are
    answered with [undefined]. *)
Definition sampleHost (h : sampleFn) (args : list (value sampleFn)) (w : unit)
    : completion sampleFn * unit :=
  match h, args with
  | Add, VNumber a :: VNumber b :: _ => (Return (VNumber (a + b)), w)
  | Const42, _ => (Return (VNumber 42), w)
  | F, VNumber a :: VNumber b :: _ => (Return (VHost (AddTo (a + b))), w)
  | AddTo k, VNumber c :: _ => (Return (VNumber (k + c)), w)
  | Sum3, VNumber a :: VNumber b :: VNumber c :: _ =>
      (Return (VNumber (a + b + c)), w)
  | Boom, _ => (Throw (Raised (VString "boom")), w)
  | _, _ => (Return VUndefined, w)
  end.

Definition sampleStart : state sampleFn unit := mkState tt [].

(** An impure host: each call returns the counter and increments it. *)
Definition tickHost (h : unit) (args : list (value unit)) (w : Z)
    : completion unit * Z :=
  (Return (VNumber w), (w + 1)%Z).

(** A host table with a target that returns a curried function:
    [outer = (a) => curry(1, (b) => (c) => a + b + c)]. *)
Inductive chainFn : Type :=
  | Outer               (* (a) => curry(1, inner_a) *)
  | Inner (a : Z)       (* inner_a = (b) => (c) => a + b + c *)
  | Last (k : Z).       (* the closure (c) => k + c returned by inner_a *)

Definition chainHost (h : chainFn) (args : list (value chainFn)) (w : unit)
    : completion chainFn * unit :=
  match h, args with
  | Outer, VNumber a :: _ => (Return (curry 1 (VHost (Inner a))), w)
  | Inner a, VNumber b :: _ => (Return (VHost (Last (a + b))), w)
  | Last k, VNumber c :: _ => (Return (VNumber (k + c)), w)
  | _, _ => (Return VUndefined, w)
  end.

End Curry.

(** ** The documentation copier *)

Module Docs.

(** Property keys: strings, and symbols of the global registry
    ([Symbol.for(name)] yields the same symbol for the same name, and no
    symbol equals a string key). *)
Inductive key : Type :=
  | KString (s : string)
  | KSymbol (s : string).

#[global] Instance key_eq_dec : EqDecision key.
Proof. solve_decision. Defined.

#[global] Instance key_countable : Countable key.
Proof.
  refine (inj_countable'
    (λ k, match k with KString s => inl s | KSymbol s => inr s end)
    (λ x, match x with inl s => KString s | inr s => KSymbol s end) _).
  by intros [].
Defined.

(** Values; [Ref l] is a reference to the object at location [l]. *)
Inductive val : Type :=
  | Undefined
  | Null
  | Bool (b : bool)
  | Number (n : Z)
  | Str (s : string)
  | Ref (l : positive).

(** An object is the finite map of its own enumerable data properties; the
    heap maps the allocated locations to their objects. *)
Abbreviation obj := (gmap key val).
Abbreviation heap := (gmap positive (gmap key val)).

(** [const mm = Symbol.for('@@meta:magical')] *)
Definition mm : key := KSymbol "@@meta:magical".

(** Modelled from the spec: the helper [folktale/helpers/env], required by the
    source but not part of it.  It reads the named variable of the process
    environment and answers the default when the variable is absent. *)
Definition env (penv : gmap string string) (name default : string) : string :=
  match penv !! name with
  | Some v => v
  | None => default
  end.

(** ToBoolean, as used by [||]. *)
Definition truthy (v : val) : bool :=
  match v with
  | Undefined | Null => false
  | Bool b => b
  | Number n => negb (n =? 0)%Z
  | Str s => negb (String.eqb s "")
  | Ref _ => true
  end.

(** The own enumerable properties of a string: its characters by index. *)
Definition stringProps (s : string) : gmap key val :=
  list_to_map
    (imap (λ i c, (KString (pretty i), Str (String c EmptyString)))
          (String.list_ascii_of_string s)).

(** What [Object.assign] copies from one source argument: nothing from
    [undefined] and [null], which it skips, nor from booleans and numbers; the
    characters of a string; the properties of an object.  [None] only for a
    reference that is not in the heap. *)
Definition ownProps (h : heap) (v : val) : option obj :=
  match v with
  | Ref l => h !! l
  | Str s => Some (stringProps s)
  | _ => Some ∅
  end.

(** [Object.assign(target, ...sources)] on property maps: the sources are
    copied in order, a later one overwriting an earlier one. *)
Definition Object_assign (tgt : obj) (sources : list obj) : obj :=
  foldl (λ acc src, src ∪ acc) tgt sources.

(** The only failure the function can raise itself. *)
Inductive error : Type :=
  | TypeError.

Inductive completion : Type :=
  | Return (v : val)
  | Throw (e : error).

(** [v[mm]].  [undefined] and [null] have no properties; an object answers
    with its own slot, [undefined] when it has none; booleans, numbers and
    strings are looked up on their wrappers, which carry no slot.  Prototype
    chains and accessors are not modelled. *)
Definition readSlot (h : heap) (v : val) : option completion :=
  match v with
  | Undefined | Null => Some (Throw TypeError)
  | Ref l => o ← h !! l; Some (Return (default Undefined (o !! mm)))
  | Bool _ | Number _ | Str _ => Some (Return Undefined)
  end.

(** [copyDocumentation(source, target, extensions = {})].  The result is the
    completion with the new heap, or [None] when a reference that is read
    is not in the heap, which no program can bring about.

    The object literals in [source[mm] || {}] and in the default of
    [extensions] are only read by [Object.assign] and never stored: they
    appear as the empty property map.  The literal passed first to
    [Object.assign] is the one object the call allocates, at a location the
    heap does not use; when the store into [target] fails, or is dropped
    because [target] is a boolean, a number or a string (the source is not
    in strict mode), nothing refers to that object and the heap is returned
    without it.  The arrow function has a block body without [return]: it
    returns [undefined]. *)
Definition copyDocumentation (penv : gmap string string)
    (source target extensions : val) (h : heap)
    : option (completion * heap) :=
  let docs := env penv "FOLKTALE_DOCS" "false" in
  if decide (docs ≠ "false") then
    match readSlot h source with
    | None => None
    | Some (Throw e) => Some (Throw e, h)
    | Some (Return slot) =>
        src ← (if truthy slot then ownProps h slot else Some ∅);
        ext ← (match extensions with
               | Undefined => Some ∅
               | e => ownProps h e
               end);
        let l := fresh (dom h) in
        let merged := Object_assign ∅ [src; ext] in
        match target with
        | Undefined | Null => Some (Throw TypeError, h)
        | Ref t =>
            tobj ← h !! t;
            Some (Return Undefined,
                  <[t := <[mm := Ref l]> tobj]> (<[l := merged]> h))
        | Bool _ | Number _ | Str _ => Some (Return Undefined, h)
        end
    end
  else Some (Return Undefined, h).

(** *** A sample heap

    [source] at 1 with its slot object [{a: 1, b: 2}] at 2; [target] at 3 with
    an older slot object [{z: 9}] at 4; [extensions] [{b: 3, c: 4}] at 5; an
    object without slot at 6. *)
Definition sourceObj : obj := {[ mm := Ref 2 ]}.

Definition sourceMeta : obj :=
  {[ KString "a" := Number 1; KString "b" := Number 2 ]}.

Definition targetObj : obj := {[ mm := Ref 4; KString "name" := Str "target" ]}.

Definition olderMeta : obj := {[ KString "z" := Number 9 ]}.

Definition extensionsObj : obj :=
  {[ KString "b" := Number 3; KString "c" := Number 4 ]}.

Definition sampleHeap : heap :=
  {[ 1%positive := sourceObj;
     2%positive := sourceMeta;
     3%positive := targetObj;
     4%positive := olderMeta;
     5%positive := extensionsObj;
     6%positive := ∅ ]}.

Definition docsOn : gmap string string := {[ "FOLKTALE_DOCS" := "true" ]}.

Definition docsOff : gmap string string := {[ "FOLKTALE_DOCS" := "false" ]}.

(** A heap whose object at 1 holds the number 0 in its slot, beside an empty
    object at 2. *)
Definition zeroSlotObj : obj := {[ mm := Number 0 ]}.

Definition zeroSlotHeap : heap :=
  {[ 1%positive := zeroSlotObj; 2%positive := ∅ ]}.

End Docs.

(** ** Properties of the curry engine *)

Module CurryTheory.

Import Curry.

(** Decides the integer tests of the goal from the hypotheses. *)
Ltac settle_tests :=
  repeat match goal with
  | |- context [(?a <? ?b)%Z] =>
      first [ rewrite (proj2 (Z.ltb_lt a b)) by lia
            | rewrite (proj2 (Z.ltb_ge a b)) by lia ]
  | |- context [(?a =? ?b)%Z] =>
      first [ rewrite (proj2 (Z.eqb_eq a b)) by lia
            | rewrite (proj2 (Z.eqb_neq a b)) by lia ]
  end.

Section Protocol.

Context {H W : Type}.
Variable host : H → list (value H) → W → completion H * W.

Implicit Types (fuel : nat) (arity : Z) (fn f v : value H).
Implicit Types (A N args : list (value H)) (st : state H W).

(** *** [slice] at an index inside the array *)

Lemma slice_first (a : list (value H)) (n : Z) :
  (0 ≤ n ≤ Z.of_nat (length a))%Z →
  Array_slice a 0 (Some n) = take (Z.to_nat n) a.
Proof.
  intros Hn. unfold Array_slice, relIndex.
  settle_tests.
  change (0 <? 0)%Z with false. cbv iota.
  rewrite (Z.min_l 0), (Z.min_l n) by lia.
  replace (Z.max (n - 0) 0) with n by lia.
  by rewrite drop_0.
Qed.

Lemma slice_rest (a : list (value H)) (n : Z) :
  (0 ≤ n ≤ Z.of_nat (length a))%Z →
  Array_slice a n None = drop (Z.to_nat n) a.
Proof.
  intros Hn. unfold Array_slice, relIndex.
  settle_tests.
  rewrite (Z.min_l n) by lia.
  apply take_ge. rewrite length_drop. lia.
Qed.

(** *** One step of [call] *)

Lemma andThen_ret (m : M H W) st : andThen m ret st = m st.
Proof. unfold andThen, ret. by destruct (m st) as [[[] ?]|]. Qed.

Lemma call_host fuel (h : H) args st :
  call host (S fuel) (VHost h) args st =
  Some ((host h args (world st)).1,
        mkState (host h args (world st)).2 (invoked st ++ [(h, args)])).
Proof. simpl. by destruct (host h args (world st)). Qed.

Lemma call_not_callable fuel v args st :
  callable v = false →
  call host (S fuel) v args st = Some (Throw (NotCallable v), st).
Proof. by destruct v. Qed.

Lemma call_waiting fuel arity fn A N st :
  (Z.of_nat (length A + length N) < arity)%Z →
  call host (S fuel) (VCurried arity fn A) N st =
  Some (Return (VCurried arity fn (A ++ N)), st).
Proof.
  intros Hlt. simpl. unfold curriedBody, Array_concat.
  rewrite length_app.
  by settle_tests.
Qed.

Lemma call_exact fuel arity fn A N st :
  Z.of_nat (length A + length N) = arity →
  call host (S fuel) (VCurried arity fn A) N st = call host fuel fn (A ++ N) st.
Proof.
  intros Heq. simpl. unfold curriedBody, Array_concat.
  rewrite length_app.
  by settle_tests.
Qed.

Lemma call_overflow fuel arity fn A N st :
  (0 ≤ arity)%Z → (arity < Z.of_nat (length A + length N))%Z →
  call host (S fuel) (VCurried arity fn A) N st =
  andThen (call host fuel fn (take (Z.to_nat arity) (A ++ N)))
          (λ V, call host fuel V (drop (Z.to_nat arity) (A ++ N))) st.
Proof.
  intros H0 Hgt. simpl. unfold curriedBody, unrollInvoke, Array_concat.
  rewrite length_app.
  settle_tests.
  rewrite slice_first, slice_rest; [done | rewrite length_app; lia ..].
Qed.

(** The accumulator and the new arguments only count together. *)
Lemma call_shift fuel arity fn A B N st :
  call host fuel (VCurried arity fn (A ++ B)) N st =
  call host fuel (VCurried arity fn A) (B ++ N) st.
Proof.
  destruct fuel as [|fuel]; [done |].
  simpl. unfold curriedBody, Array_concat. by rewrite (assoc_L (++)).
Qed.

(** More fuel never changes a result. *)
Lemma call_fuel_mono fuel : ∀ f args st r,
  call host fuel f args st = Some r →
  call host (S fuel) f args st = Some r.
Proof.
  induction fuel as [|fuel IH]; intros f args st r Hr; [done |].
  destruct f as [| | |h|arity fn A]; try exact Hr.
  change (curriedBody (call host fuel) arity fn A args st = Some r) in Hr.
  change (curriedBody (call host (S fuel)) arity fn A args st = Some r).
  revert Hr. unfold curriedBody.
  destruct (_ <? _)%Z; [done |].
  destruct (_ =? _)%Z; [by apply IH |].
  unfold unrollInvoke, andThen.
  destruct (call host fuel fn _ st) as [[[V|e] st1]|] eqn:E; [| |done].
  - rewrite (IH _ _ _ _ E). by apply IH.
  - by rewrite (IH _ _ _ _ E).
Qed.

Lemma call_fuel_le fuel fuel' f args st r :
  fuel ≤ fuel' →
  call host fuel f args st = Some r →
  call host fuel' f args st = Some r.
Proof.
  induction 1 as [|fuel' _ IH]; [done |].
  intros Hr. by apply call_fuel_mono, IH.
Qed.

(** Successive calls that stay below the arity only grow the accumulator. *)
Lemma callSeq_waiting fuel arity fn (pre : list (list (value H))) :
  ∀ A (last : list (value H)) st,
  (Z.of_nat (length A + length (concat pre)) < arity)%Z →
  callSeq host fuel (VCurried arity fn A) (pre ++ [last]) st =
  call host fuel (VCurried arity fn (A ++ concat pre)) last st.
Proof.
  induction pre as [|c pre IH]; intros A last st Hlt.
  - cbn [app callSeq concat]. rewrite (right_id_L [] (++)).
    apply andThen_ret.
  - cbn [app callSeq concat] in *. rewrite length_app in Hlt.
    destruct fuel as [|fuel]; [done |].
    unfold andThen at 1. rewrite call_waiting by lia.
    rewrite IH by (rewrite length_app; lia).
    by rewrite (assoc_L (++)).
Qed.

(** *** Exact arity *)

(** C1. A call of [curry(arity, fn)] with exactly [arity] arguments is the
    call of [fn] on those arguments, in order, and its outcome (result or
    failure, and final state) is the outcome of the whole call; when [fn] is
    a host function it is invoked exactly once: the record of invocations
    grows by the single entry [(fn, args)].  With arity 0 and no argument,
    [fn] is called with no argument. *)
Theorem curry_exact_arity fuel arity fn args st :
  Z.of_nat (length args) = arity →
  call host (S fuel) (curry arity fn) args st = call host fuel fn args st
  ∧ (∀ h, fn = VHost h →
       call host (S (S fuel)) (curry arity fn) args st =
       Some ((host h args (world st)).1,
             mkState (host h args (world st)).2 (invoked st ++ [(h, args)])))
  ∧ call host (S fuel) (curry 0 fn) [] st = call host fuel fn [] st.
Proof.
  intros Hlen. split; [| split].
  - unfold curry, curried. by rewrite call_exact.
  - intros h ->. unfold curry, curried.
    rewrite call_exact by done. apply call_host.
  - unfold curry, curried. by rewrite call_exact.
Qed.

(** *** Accumulation across calls *)

(** C2. Let an argument sequence of length [arity] be cut into the pieces
    [pre ++ [last]], supplied by successive calls, none of them made after
    the sequence is complete (empty pieces are allowed).  The calls yield
    what the single call with the whole sequence yields, namely the outcome
    of [fn] on the whole sequence. *)
Theorem accumulation_associative fuel arity fn
    (pre : list (list (value H))) (last : list (value H)) st :
  pre = [] ∨ (Z.of_nat (length (concat pre)) < arity)%Z →
  Z.of_nat (length (concat (pre ++ [last]))) = arity →
  callSeq host (S fuel) (curry arity fn) (pre ++ [last]) st
  = call host (S fuel) (curry arity fn) (concat (pre ++ [last])) st
  ∧ callSeq host (S fuel) (curry arity fn) (pre ++ [last]) st
    = call host fuel fn (concat (pre ++ [last])) st.
Proof.
  intros Hpre Hlen.
  assert (callSeq host (S fuel) (curry arity fn) (pre ++ [last]) st
          = call host (S fuel) (curry arity fn) (concat (pre ++ [last])) st)
    as Heq.
  { rewrite concat_app. cbn [concat]. rewrite (right_id_L [] (++)).
    unfold curry, curried. destruct Hpre as [-> | Hlt].
    - cbn [app callSeq concat]. apply andThen_ret.
    - rewrite callSeq_waiting by (cbn [length]; lia).
      apply (call_shift (S fuel) arity fn [] (concat pre) last). }
  split; [done |]. rewrite Heq.
  unfold curry, curried. by rewrite call_exact.
Qed.

(** *** Waiting *)

(** C3. A continuation holding [A], called with [N] such that
    [length A + length N < arity], returns the continuation whose
    accumulator is [A ++ N]; the state is returned as it was received, so no
    function was invoked. *)
Theorem waiting_transition fuel arity fn A N st :
  (Z.of_nat (length A + length N) < arity)%Z →
  call host (S fuel) (curried arity fn A) N st
  = Some (Return (curried arity fn (A ++ N)), st)
  ∧ accumulator (curried arity fn (A ++ N)) = Some (A ++ N).
Proof. intros Hlt. split; [by apply call_waiting | done]. Qed.

(** *** Overflow *)

(** C4. When [length A + length N] exceeds [arity], the combined sequence is
    cut at index [arity]; [fn] is called on the first part and, when it
    returns [V], [V] is called on the whole remainder, and the outcome of
    that second call is the outcome of the whole call.  When [fn] and [V] are
    host functions exactly these two invocations are recorded. *)
Theorem overflow_unrolls_once fuel arity fn A N st :
  (0 ≤ arity)%Z →
  (arity < Z.of_nat (length A + length N))%Z →
  let All := A ++ N in
  let First := take (Z.to_nat arity) All in
  let Rest := drop (Z.to_nat arity) All in
  (All = First ++ Rest ∧ Z.of_nat (length First) = arity)
  ∧ call host (S fuel) (curried arity fn A) N st
    = andThen (call host fuel fn First) (λ V, call host fuel V Rest) st
  ∧ (∀ h g w1,
       fn = VHost h →
       host h First (world st) = (Return (VHost g), w1) →
       call host (S (S fuel)) (curried arity fn A) N st
       = Some ((host g Rest w1).1,
               mkState (host g Rest w1).2
                       (invoked st ++ [(h, First); (g, Rest)]))).
Proof.
  intros H0 Hgt All First Rest. split; [| split].
  - subst First Rest. rewrite take_drop. split; [done |].
    rewrite length_take. subst All. rewrite length_app. lia.
  - by apply call_overflow.
  - intros h g w1 -> Hh. unfold curried.
    rewrite call_overflow by done. fold All First Rest.
    unfold andThen. rewrite call_host, Hh. cbn [fst snd].
    rewrite call_host. cbn [world invoked].
    by rewrite <- (assoc_L (++)).
Qed.

(** *** Failures *)

(** C5. In the overflow case a returned [V] that cannot be called makes the
    call fail with the not-a-function error on [V], after [fn] has run; a
    failure of [fn], or of [V], is the failure of the whole call, with the
    very error and state.  In the exact case a failure of [fn] is the failure
    of the call.  Nothing is checked earlier: [curry] builds its closure from
    any arity and any value, a call that does not reach the arity succeeds
    whatever [fn] is, and a [fn] that is not a function fails only when the
    arity is reached and it is called. *)
Theorem failures_propagate fuel arity fn A N st :
  let All := A ++ N in
  let First := take (Z.to_nat arity) All in
  let Rest := drop (Z.to_nat arity) All in
  ((0 ≤ arity)%Z → (arity < Z.of_nat (length A + length N))%Z →
     (∀ V st1,
        call host fuel fn First st = Some (Return V, st1) →
        callable V = false →
        call host (S fuel) (curried arity fn A) N st
        = Some (Throw (NotCallable V), st1))
     ∧ (∀ V st1 e st2,
        call host fuel fn First st = Some (Return V, st1) →
        call host fuel V Rest st1 = Some (Throw e, st2) →
        call host (S fuel) (curried arity fn A) N st = Some (Throw e, st2))
     ∧ (∀ e st1,
        call host fuel fn First st = Some (Throw e, st1) →
        call host (S fuel) (curried arity fn A) N st = Some (Throw e, st1)))
  ∧ (Z.of_nat (length A + length N) = arity →
     (∀ e st1,
        call host fuel fn All st = Some (Throw e, st1) →
        call host (S fuel) (curried arity fn A) N st = Some (Throw e, st1))
     ∧ (callable fn = false →
        call host (S (S fuel)) (curried arity fn A) N st
        = Some (Throw (NotCallable fn), st)))
  ∧ ((Z.of_nat (length A + length N) < arity)%Z →
     call host (S fuel) (curried arity fn A) N st
     = Some (Return (curried arity fn All), st))
  ∧ curry arity fn = VCurried arity fn [].
Proof.
  intros All First Rest. unfold curried. repeat split.
  - intros V st1 HV Hnc. rewrite call_overflow by done.
    fold All First Rest. unfold andThen. rewrite HV.
    destruct fuel as [|fuel]; [done |]. by apply call_not_callable.
  - intros V st1 e st2 HV He. rewrite call_overflow by done.
    fold All First Rest. unfold andThen. by rewrite HV.
  - intros e st1 He. rewrite call_overflow by done.
    fold All First Rest. unfold andThen. by rewrite He.
  - intros e st1 He. by rewrite call_exact.
  - intros Hnc. rewrite call_exact by done. by apply call_not_callable.
  - by apply call_waiting.
Qed.

(** *** Determinism and reuse *)

(** The record of invocations is write-only: an outcome depends on the state
    through the world alone. *)
Lemma call_world_only fuel : ∀ f args st st',
  world st = world st' →
  outcome <$> call host fuel f args st = outcome <$> call host fuel f args st'.
Proof.
  induction fuel as [|fuel IH]; intros f args st st' Hw; [done |].
  destruct f as [| | |h|arity fn A]; cbn [call].
  1-3: by (unfold outcome; cbn; rewrite Hw).
  - rewrite Hw. by destruct (host h args (world st')).
  - unfold curriedBody.
    destruct (_ <? _)%Z; [by (unfold ret, outcome; cbn; rewrite Hw) |].
    destruct (_ =? _)%Z; [by apply IH |].
    unfold unrollInvoke, andThen.
    pose proof (IH fn (Array_slice (Array_concat A args) 0 (Some arity))
                  st st' Hw) as E.
    destruct (call host fuel fn _ st) as [[[V|e] s1]|],
             (call host fuel fn _ st') as [[[V'|e'] s1']|];
      unfold outcome in E; cbn in E; simplify_eq; try done.
    + by apply IH.
    + unfold outcome; cbn. congruence.
Qed.

(** With host functions whose result does not depend on the world, the
    completion of a call does not depend on the state at all. *)
Lemma call_pure :
  (∀ h a w w', (host h a w).1 = (host h a w').1) →
  ∀ fuel f args st st',
  fst <$> call host fuel f args st = fst <$> call host fuel f args st'.
Proof.
  intros Hpure. induction fuel as [|fuel IH]; intros f args st st'; [done |].
  destruct f as [| | |h|arity fn A]; cbn [call]; try done.
  - pose proof (Hpure h args (world st) (world st')) as E.
    destruct (host h args (world st)), (host h args (world st')).
    cbn in *. by subst.
  - unfold curriedBody.
    destruct (_ <? _)%Z; [done |].
    destruct (_ =? _)%Z; [by apply IH |].
    unfold unrollInvoke, andThen.
    pose proof (IH fn (Array_slice (Array_concat A args) 0 (Some arity))
                  st st') as E.
    destruct (call host fuel fn _ st) as [[[V|e] s1]|],
             (call host fuel fn _ st') as [[[V'|e'] s1']|];
      cbn in E; simplify_eq; first [done | by apply IH].
Qed.

(** C6. The engine keeps no state of its own: a call's completion and world
    are determined by the callee, the arguments and the world it starts
    from; with pure host functions the completion is the same from any two
    states, hence the same each time the continuation is called with the
    same arguments.  A continuation completed once with [N1] and then again
    with [N2] passes [A ++ N2] to the target the second time: the invocations
    recorded are [A ++ N1] and [A ++ N2], each built from the accumulator [A]
    that the continuation had from the start. *)
Theorem continuations_independent fuel f args st st' :
  (world st = world st' →
     outcome <$> call host fuel f args st
     = outcome <$> call host fuel f args st')
  ∧ ((∀ h a w w', (host h a w).1 = (host h a w').1) →
     fst <$> call host fuel f args st = fst <$> call host fuel f args st')
  ∧ (∀ arity h A N1 N2 r1 st1,
       f = curried arity (VHost h) A →
       Z.of_nat (length A + length N1) = arity →
       Z.of_nat (length A + length N2) = arity →
       call host (S (S fuel)) f N1 st = Some (r1, st1) →
       accumulator f = Some A
       ∧ call host (S (S fuel)) f N2 st1
         = Some ((host h (A ++ N2) (world st1)).1,
                 mkState (host h (A ++ N2) (world st1)).2
                         (invoked st ++ [(h, A ++ N1); (h, A ++ N2)]))).
Proof.
  split; [apply call_world_only |].
  split; [intros Hpure; by apply call_pure |].
  intros arity h A N1 N2 r1 st1 -> H1 H2. unfold curried.
  rewrite !call_exact, !call_host by done.
  intros [= <- <-]. split; [done |]. cbn [world invoked].
  by rewrite <- (assoc_L (++)).
Qed.

(** *** The accumulator invariant *)

(** The record of invocations only grows. *)
Lemma invoked_grows fuel : ∀ f args st r st',
  call host fuel f args st = Some (r, st') →
  ∃ later, invoked st' = invoked st ++ later.
Proof.
  induction fuel as [|fuel IH]; intros f args st r st' Hc; [done |].
  destruct f as [| | |h|arity fn A]; cbn [call] in Hc.
  1-3: simplify_eq; exists []; by rewrite (right_id_L [] (++)).
  - destruct (host h args (world st)). simplify_eq. by eexists.
  - revert Hc. unfold curriedBody.
    destruct (_ <? _)%Z.
    { unfold ret. intros [= <- <-]. exists []. by rewrite (right_id_L [] (++)). }
    destruct (_ =? _)%Z; [by apply IH |].
    unfold unrollInvoke, andThen.
    destruct (call host fuel fn _ st) as [[[V|e] s1]|] eqn:E; [| |done].
    + intros Hc. apply IH in E as [l1 E1]. apply IH in Hc as [l2 E2].
      exists (l1 ++ l2). by rewrite E2, E1, (assoc_L (++)).
    + intros [= <- <-]. by apply IH in E.
Qed.

(** A list that did not grow had nothing appended. *)
Lemma nothing_recorded {X} (l later : list X) : l ++ later = l → later = [].
Proof.
  intros E. apply (app_inv_head l). by rewrite (right_id_L [] (++)).
Qed.

(** Whatever a call hands back without any function having been invoked is
    a continuation whose accumulator passed the test [argCount < arity]. *)
Lemma handed_back_waiting fuel : ∀ f args st c' st',
  call host fuel f args st = Some (Return c', st') →
  invoked st' = invoked st →
  ∃ arity' fn' acc,
    c' = curried arity' fn' acc ∧ (Z.of_nat (length acc) < arity')%Z.
Proof.
  induction fuel as [|fuel IH]; intros f args st c' st' Hc Hsame; [done |].
  destruct f as [| | |h|arity fn A]; cbn [call] in Hc; try done.
  - destruct (host h args (world st)). simplify_eq. cbn [invoked] in Hsame.
    by apply nothing_recorded in Hsame.
  - revert Hc. unfold curriedBody, Array_concat.
    destruct (_ <? _)%Z eqn:Htest.
    { unfold ret. intros [= <- <-]. apply Z.ltb_lt in Htest. by eexists _, _, _. }
    destruct (_ =? _)%Z; [intros Hc; by eapply IH |].
    unfold unrollInvoke, andThen.
    destruct (call host fuel fn _ st) as [[[V|e] s1]|] eqn:E; [| done ..].
    intros Hc.
    destruct (invoked_grows _ _ _ _ _ _ E) as [l1 E1].
    destruct (invoked_grows _ _ _ _ _ _ Hc) as [l2 E2].
    assert (l1 ++ l2 = []) as Hnil.
    { apply (nothing_recorded (invoked st)).
      by rewrite (assoc_L (++)), <- E1, <- E2. }
    apply app_eq_nil in Hnil as [-> ->].
    eapply IH; [exact Hc |]. by rewrite E2, (right_id_L [] (++)).
Qed.

(** Over a host target the continuation handed back is the same closure
    with the new arguments appended. *)
Lemma handed_back_waiting_host fuel arity (h : H) A N st c' st' :
  call host fuel (VCurried arity (VHost h) A) N st = Some (Return c', st') →
  invoked st' = invoked st →
  c' = curried arity (VHost h) (A ++ N)
  ∧ (Z.of_nat (length (A ++ N)) < arity)%Z.
Proof.
  destruct fuel as [|fuel]; [done |]. cbn [call].
  unfold curriedBody, Array_concat.
  destruct (_ <? _)%Z eqn:Htest.
  { unfold ret. intros [= <- <-] _. by apply Z.ltb_lt in Htest. }
  destruct (_ =? _)%Z.
  - destruct fuel as [|fuel]; [done |]. rewrite call_host.
    intros [= _ <-] Hsame. cbn [invoked] in Hsame.
    by apply nothing_recorded in Hsame.
  - unfold unrollInvoke, andThen.
    destruct fuel as [|fuel]; [done |]. rewrite call_host.
    destruct (host h _ (world st)) as [[V|e] w1]; cbn [fst snd]; [| done].
    intros Hc Hsame. apply invoked_grows in Hc as [later Hl].
    cbn [invoked] in Hl. rewrite Hl, <- (assoc_L (++)) in Hsame.
    by apply nothing_recorded in Hsame.
Qed.

(** C7.  [curry] returns a continuation with an empty accumulator.  Every
    continuation exposed to the caller as still waiting (handed back by a
    call during which nothing was invoked) holds fewer arguments than its
    arity; over a host target it is a closure over the same arity and
    target.  Every further step keeps this: whatever a call on an exposed
    continuation hands back, with nothing invoked, is again a continuation
    with fewer arguments than its arity.  With [arity ≥ 1] the continuation
    that [curry] returns is itself exposed in this sense. *)
Theorem accumulator_invariant arity fn c :
  exposed host arity fn c →
  accumulator (curry arity fn) = Some []
  ∧ (∃ arity' fn' acc,
       c = curried arity' fn' acc ∧ (Z.of_nat (length acc) < arity')%Z)
  ∧ (∀ h, fn = VHost h →
       ∃ acc, c = curried arity fn acc ∧ (Z.of_nat (length acc) < arity)%Z)
  ∧ (∀ fuel N st c' st',
       call host fuel c N st = Some (Return c', st') →
       invoked st' = invoked st →
       exposed host arity fn c'
       ∧ ∃ arity' fn' acc,
           c' = curried arity' fn' acc ∧ (Z.of_nat (length acc) < arity')%Z)
  ∧ (∀ st : state H W,
       (0 < arity)%Z → exposed host arity fn (curry arity fn)).
Proof.
  intros Hex. split; [done |]. split; [| split; [| split]].
  - destruct Hex as [fuel N st c' st' Hc Hsame | fuel c N st c' st' _ Hc Hsame];
      by eapply handed_back_waiting.
  - intros h ->.
    induction Hex as [fuel N st c' st' Hc Hsame
                     | fuel c N st c' st' _ IH Hc Hsame].
    + apply handed_back_waiting_host in Hc as [-> Hlt]; [| done].
      by eexists.
    + destruct IH as (acc & -> & _).
      apply handed_back_waiting_host in Hc as [-> Hlt]; [| done].
      by eexists.
  - intros fuel N st c' st' Hc Hsame. split.
    + by eapply exposed_next.
    + by eapply handed_back_waiting.
  - intros st Hpos. apply (exposed_first host arity fn 1 [] st _ st); [| done].
    unfold curry, curried. by rewrite call_waiting by (cbn [length]; lia).
Qed.

End Protocol.

(** *** The theorems at the sample hosts *)

Lemma curry_exact_arity_witness :
  Z.of_nat (length [VNumber 1; VNumber 2 : value sampleFn]) = 2%Z
  ∧ call sampleHost 2 (curry 2 (VHost Add)) [VNumber 1; VNumber 2] sampleStart
    = Some (Return (VNumber 3),
            mkState tt [(Add, [VNumber 1; VNumber 2])]).
Proof.
  split; [reflexivity |].
  rewrite (proj1 (curry_exact_arity sampleHost 1 2 (VHost Add)
                    [VNumber 1; VNumber 2] sampleStart eq_refl)).
  reflexivity.
Defined.

Lemma accumulation_associative_witness :
  ([[VNumber 1 : value sampleFn]] = []
   ∨ (Z.of_nat (length (concat [[VNumber 1 : value sampleFn]])) < 2)%Z)
  ∧ Z.of_nat (length (concat ([[VNumber 1 : value sampleFn]]
                               ++ [[VNumber 2]]))) = 2%Z
  ∧ callSeq sampleHost 2 (curry 2 (VHost Add))
      ([[VNumber 1]] ++ [[VNumber 2]]) sampleStart
    = call sampleHost 2 (curry 2 (VHost Add)) [VNumber 1; VNumber 2]
        sampleStart.
Proof.
  split; [right; reflexivity |]. split; [reflexivity |].
  apply (accumulation_associative sampleHost 1 2 (VHost Add)
           [[VNumber 1]] [VNumber 2] sampleStart);
    [right; reflexivity | reflexivity].
Defined.

Lemma waiting_transition_witness :
  (Z.of_nat (length [VNumber 1 : value sampleFn]
             + length [VNumber 2 : value sampleFn]) < 3)%Z
  ∧ call sampleHost 1 (curried 3 (VHost Sum3) [VNumber 1]) [VNumber 2]
      sampleStart
    = Some (Return (curried 3 (VHost Sum3) [VNumber 1; VNumber 2]),
            sampleStart).
Proof.
  split; [reflexivity |].
  apply (waiting_transition sampleHost 0 3 (VHost Sum3) [VNumber 1]
           [VNumber 2] sampleStart).
  reflexivity.
Defined.

Lemma overflow_unrolls_once_witness :
  (0 ≤ 2)%Z
  ∧ (2 < Z.of_nat (length [VNumber 1 : value sampleFn]
                   + length [VNumber 2; VNumber 3 : value sampleFn]))%Z
  ∧ call sampleHost 2 (curried 2 (VHost F) [VNumber 1])
      [VNumber 2; VNumber 3] sampleStart
    = Some (Return (VNumber 6),
            mkState tt [(F, [VNumber 1; VNumber 2]);
                        (AddTo 3, [VNumber 3])]).
Proof.
  split; [done |]. split; [reflexivity |].
  apply (proj2 (proj2 (overflow_unrolls_once sampleHost 0 2 (VHost F)
           [VNumber 1] [VNumber 2; VNumber 3] sampleStart
           ltac:(done) ltac:(reflexivity))) F (AddTo 3) tt);
    reflexivity.
Defined.

Lemma failures_propagate_witness :
  call sampleHost 2 (curried 2 (VHost Add) [])
    [VNumber 1; VNumber 2; VNumber 3] sampleStart
  = Some (Throw (NotCallable (VNumber 3)),
          mkState tt [(Add, [VNumber 1; VNumber 2])]).
Proof.
  apply (proj1 (proj1 (failures_propagate sampleHost 1 2 (VHost Add) []
           [VNumber 1; VNumber 2; VNumber 3] sampleStart)
           ltac:(done) ltac:(reflexivity)) (VNumber 3)
           (mkState tt [(Add, [VNumber 1; VNumber 2])]));
    reflexivity.
Defined.

Lemma continuations_independent_witness :
  (∀ (h : sampleFn) a w w', (sampleHost h a w).1 = (sampleHost h a w').1)
  ∧ fst <$> call sampleHost 2 (curried 3 (VHost Sum3) [VNumber 1])
              [VNumber 2; VNumber 3] sampleStart
    = fst <$> call sampleHost 2 (curried 3 (VHost Sum3) [VNumber 1])
              [VNumber 2; VNumber 3]
              (mkState tt [(Sum3, [VNumber 1; VNumber 4; VNumber 5])]).
Proof.
  assert (∀ (h : sampleFn) a w w',
            (sampleHost h a w).1 = (sampleHost h a w').1) as Hpure
    by (by intros h a [] []).
  split; [exact Hpure |].
  apply (continuations_independent sampleHost 2
           (curried 3 (VHost Sum3) [VNumber 1]) [VNumber 2; VNumber 3]
           sampleStart
           (mkState tt [(Sum3, [VNumber 1; VNumber 4; VNumber 5])])).
  exact Hpure.
Defined.

Lemma accumulator_invariant_witness :
  exposed sampleHost 2 (VHost Add) (curried 2 (VHost Add) [VNumber 1])
  ∧ (Z.of_nat (length [VNumber 1 : value sampleFn]) < 2)%Z.
Proof.
  assert (exposed sampleHost 2 (VHost Add)
            (curried 2 (VHost Add) [VNumber 1])) as Hex.
  { apply (exposed_first sampleHost 2 (VHost Add) 1 [VNumber 1]
             sampleStart _ sampleStart); reflexivity. }
  split; [exact Hex |].
  destruct (accumulator_invariant sampleHost 2 (VHost Add) _ Hex)
    as (_ & _ & Hhost & _).
  destruct (Hhost Add eq_refl) as (acc & Hc & Hlt).
  injection Hc as <-. exact Hlt.
Defined.

(** *** The examples of the specification *)

Example add_in_one_call :
  call sampleHost 2 (curry 2 (VHost Add)) [VNumber 1; VNumber 2] sampleStart
  = Some (Return (VNumber 3), mkState tt [(Add, [VNumber 1; VNumber 2])]).
Proof. reflexivity. Qed.

Example add_in_two_calls :
  callSeq sampleHost 2 (curry 2 (VHost Add)) [[VNumber 1]; [VNumber 2]]
    sampleStart
  = Some (Return (VNumber 3), mkState tt [(Add, [VNumber 1; VNumber 2])]).
Proof. reflexivity. Qed.

Example zero_arity_no_argument :
  call sampleHost 2 (curry 0 (VHost Const42)) [] sampleStart
  = Some (Return (VNumber 42), mkState tt [(Const42, [])]).
Proof. reflexivity. Qed.

(** With arity 0 and one argument, the target runs without argument and its
    result is applied to the argument. *)
Example zero_arity_one_argument :
  call sampleHost 2 (curry 0 (VHost Const42)) [VNumber 1] sampleStart
  = Some (Throw (NotCallable (VNumber 42)), mkState tt [(Const42, [])]).
Proof. reflexivity. Qed.

Example overflow_in_one_call :
  call sampleHost 2 (curry 2 (VHost F)) [VNumber 1; VNumber 2; VNumber 3]
    sampleStart
  = Some (Return (VNumber 6),
          mkState tt [(F, [VNumber 1; VNumber 2]); (AddTo 3, [VNumber 3])]).
Proof. reflexivity. Qed.

(** The whole remainder goes to the intermediate function in one call. *)
Example overflow_by_two :
  call sampleHost 2 (curry 2 (VHost F))
    [VNumber 1; VNumber 2; VNumber 3; VNumber 4] sampleStart
  = Some (Return (VNumber 6),
          mkState tt [(F, [VNumber 1; VNumber 2]);
                      (AddTo 3, [VNumber 3; VNumber 4])]).
Proof. reflexivity. Qed.

(** An intermediate value that is itself curried takes the remainder as any
    caller's arguments. *)
Example overflow_into_curried :
  call sampleHost 3 (curry 0 (curry 0 (VHost F))) [VNumber 1; VNumber 2]
    sampleStart
  = Some (Throw (NotCallable VUndefined), mkState tt [(F, [])]).
Proof. reflexivity. Qed.

(** What the target throws is what the caller gets. *)
Example target_throws :
  call sampleHost 2 (curry 1 (VHost Boom)) [VNumber 1] sampleStart
  = Some (Throw (Raised (VString "boom")), mkState tt [(Boom, [VNumber 1])]).
Proof. reflexivity. Qed.

(** [let p = curry(3, sum3)(1); p(2, 3); p(4, 5)] *)
Example reuse_of_a_continuation :
  andThen (call sampleHost 2 (curried 3 (VHost Sum3) [VNumber 1])
             [VNumber 2; VNumber 3])
          (λ _, call sampleHost 2 (curried 3 (VHost Sum3) [VNumber 1])
                  [VNumber 4; VNumber 5]) sampleStart
  = Some (Return (VNumber 10),
          mkState tt [(Sum3, [VNumber 1; VNumber 2; VNumber 3]);
                      (Sum3, [VNumber 1; VNumber 4; VNumber 5])]).
Proof. reflexivity. Qed.

(** A target that reads and writes the world answers differently the second
    time: the difference comes from the target alone. *)
Example impure_target :
  andThen (call tickHost 2 (curry 0 (VHost tt)) [])
          (λ _, call tickHost 2 (curry 0 (VHost tt)) []) (mkState 0%Z [])
  = Some (Return (VNumber 1), mkState 2%Z [(tt, []); (tt, [])]).
Proof. reflexivity. Qed.

End CurryTheory.

(** ** Properties of the documentation copier *)

Module DocsTheory.

Import Docs.

Lemma env_unset penv name default :
  penv !! name = None → env penv name default = default.
Proof. unfold env. by intros ->. Qed.

Lemma env_set penv name default v :
  penv !! name = Some v → env penv name default = v.
Proof. unfold env. by intros ->. Qed.

(** The default of [extensions] adds nothing to what [Object.assign] copies
    from an omitted argument. *)
Lemma extensions_default (h : heap) extensions :
  match extensions with Undefined => Some ∅ | e => ownProps h e end
  = ownProps h extensions.
Proof. by destruct extensions. Qed.

Lemma Object_assign_two (src ext : obj) :
  Object_assign ∅ [src; ext] = ext ∪ src.
Proof. unfold Object_assign. cbn. by rewrite (right_id_L ∅ (∪)). Qed.

Lemma overlay_lookup (ext src : obj) k :
  (ext ∪ src) !! k
  = match ext !! k with Some v => Some v | None => src !! k end.
Proof.
  rewrite lookup_union. destruct (ext !! k), (src !! k); done.
Qed.

Lemma fresh_unallocated (h : heap) : h !! fresh (dom h) = None.
Proof. apply not_elem_of_dom, is_fresh. Qed.

(** The enabled branch, on allocated objects. *)
Lemma copyDocumentation_enabled penv source target extensions (h : heap)
    (sobj tobj src eprops : obj) :
  env penv "FOLKTALE_DOCS" "false" ≠ "false" →
  h !! source = Some sobj →
  h !! target = Some tobj →
  (if truthy (default Undefined (sobj !! mm))
   then ownProps h (default Undefined (sobj !! mm)) else Some ∅) = Some src →
  ownProps h extensions = Some eprops →
  copyDocumentation penv (Ref source) (Ref target) extensions h
  = Some (Return Undefined,
          <[target := <[mm := Ref (fresh (dom h))]> tobj]>
            (<[fresh (dom h) := eprops ∪ src]> h)).
Proof.
  intros Hon Hs Ht Hsrc Hext. unfold copyDocumentation, readSlot.
  rewrite decide_True by done.
  rewrite Hs. cbn [mbind option_bind].
  rewrite Hsrc. cbn [mbind option_bind].
  rewrite extensions_default, Hext. cbn [mbind option_bind].
  rewrite Ht. cbn [mbind option_bind].
  by rewrite Object_assign_two.
Qed.

(** The guard: when [docs] is the text [false] nothing is done. *)
Lemma copyDocumentation_skipped penv source target extensions (h : heap) :
  env penv "FOLKTALE_DOCS" "false" = "false" →
  copyDocumentation penv source target extensions h
  = Some (Return Undefined, h).
Proof.
  intros Hoff. unfold copyDocumentation. rewrite Hoff.
  by rewrite decide_False by (intros Hne; by apply Hne).
Qed.

(** With the copy enabled, a [source] that is [undefined] or [null] makes
    the call fail on reading its slot. *)
Lemma copyDocumentation_no_source penv source target extensions (h : heap) :
  env penv "FOLKTALE_DOCS" "false" ≠ "false" →
  source = Undefined ∨ source = Null →
  copyDocumentation penv source target extensions h
  = Some (Throw TypeError, h).
Proof.
  intros Hon Hsrc. unfold copyDocumentation.
  rewrite decide_True by done. by destruct Hsrc as [-> | ->].
Qed.

(** Lookups in the sample heap. *)
Lemma docsOn_enabled : env docsOn "FOLKTALE_DOCS" "false" ≠ "false".
Proof. unfold env, docsOn. by rewrite lookup_singleton_eq. Qed.

Lemma sampleHeap_1 : sampleHeap !! 1%positive = Some sourceObj.
Proof. unfold sampleHeap. by simplify_map_eq. Qed.

Lemma sampleHeap_2 : sampleHeap !! 2%positive = Some sourceMeta.
Proof. unfold sampleHeap. by simplify_map_eq. Qed.

Lemma sampleHeap_3 : sampleHeap !! 3%positive = Some targetObj.
Proof. unfold sampleHeap. by simplify_map_eq. Qed.

Lemma sampleHeap_5 : sampleHeap !! 5%positive = Some extensionsObj.
Proof. unfold sampleHeap. by simplify_map_eq. Qed.

Lemma sampleHeap_6 : sampleHeap !! 6%positive = Some ∅.
Proof. unfold sampleHeap. by simplify_map_eq. Qed.

(** What the heap looks like afterwards. *)
Lemma copyDocumentation_heap (h : heap) target (tobj merged : obj) :
  h !! target = Some tobj →
  let l := fresh (dom h) in
  let h' := <[target := <[mm := Ref l]> tobj]> (<[l := merged]> h) in
  h' !! target = Some (<[mm := Ref l]> tobj)
  ∧ h' !! l = Some merged
  ∧ (∀ l', l' ≠ target → l' ≠ l → h' !! l' = h !! l').
Proof.
  intros Ht l h'.
  assert (h !! l = None) as Hf by apply fresh_unallocated.
  assert (l ≠ target) as Hne by (intros E; rewrite E in Hf; congruence).
  subst h'. split; [apply lookup_insert_eq |]. split.
  - rewrite lookup_insert_ne by done. apply lookup_insert_eq.
  - intros l' H1 H2. by rewrite !lookup_insert_ne.
Qed.

(** C8. With the variable unset, or set to the text [false], the call
    returns [undefined] and the heap it was given: no object changes,
    whatever [source], [target] and [extensions] are. *)
Theorem copyDocumentation_disabled penv source target extensions (h : heap) :
  penv !! "FOLKTALE_DOCS" = None ∨ penv !! "FOLKTALE_DOCS" = Some "false" →
  copyDocumentation penv source target extensions h
  = Some (Return Undefined, h).
Proof.
  intros Hoff. apply copyDocumentation_skipped.
  destruct Hoff as [Hu | Hf]; [by apply env_unset | by apply env_set].
Qed.

Lemma copyDocumentation_disabled_witness :
  ((∅ : gmap string string) !! "FOLKTALE_DOCS" = None
   ∨ (∅ : gmap string string) !! "FOLKTALE_DOCS" = Some "false")
  ∧ copyDocumentation ∅ (Ref 1) (Ref 3) (Ref 5) sampleHeap
    = Some (Return Undefined, sampleHeap).
Proof.
  split; [left; reflexivity |].
  apply (copyDocumentation_disabled ∅ (Ref 1) (Ref 3) (Ref 5) sampleHeap).
  left; reflexivity.
Defined.

(** C9. With the variable set to anything but [false], a call on a [source]
    whose slot holds an object with properties [smeta], with [extensions]
    holding [eprops], returns [undefined] and leaves [target]'s slot
    referring to a newly allocated object whose properties are [smeta]
    overlaid with [eprops]: a key of [eprops] has the value it has there, any
    other key the value it has in [smeta].  The values are copied as they
    are.  The other properties of [target] and every other object are
    unchanged. *)
Theorem copyDocumentation_merges penv source target extensions (h : heap)
    (sobj tobj smeta eprops : obj) slot :
  env penv "FOLKTALE_DOCS" "false" ≠ "false" →
  h !! source = Some sobj →
  h !! target = Some tobj →
  sobj !! mm = Some slot →
  truthy slot = true →
  ownProps h slot = Some smeta →
  ownProps h extensions = Some eprops →
  let l := fresh (dom h) in
  ∃ h',
    copyDocumentation penv (Ref source) (Ref target) extensions h
    = Some (Return Undefined, h')
    ∧ h !! l = None
    ∧ h' !! target = Some (<[mm := Ref l]> tobj)
    ∧ h' !! l = Some (eprops ∪ smeta)
    ∧ (∀ k, (eprops ∪ smeta) !! k
            = match eprops !! k with Some v => Some v | None => smeta !! k end)
    ∧ (∀ k, k ≠ mm → (<[mm := Ref l]> tobj) !! k = tobj !! k)
    ∧ (∀ l', l' ≠ target → l' ≠ l → h' !! l' = h !! l').
Proof.
  intros Hon Hs Ht Hslot Htruthy Hmeta Hext l.
  eexists. split.
  { apply (copyDocumentation_enabled penv source target extensions h
             sobj tobj smeta eprops); try done.
    rewrite Hslot. cbn. by rewrite Htruthy. }
  destruct (copyDocumentation_heap h target tobj (eprops ∪ smeta) Ht)
    as (H1 & H2 & H3).
  split; [apply fresh_unallocated |].
  split; [done |]. split; [done |].
  split; [apply overlay_lookup |].
  split; [| done]. intros k Hk. by rewrite lookup_insert_ne.
Qed.

Lemma copyDocumentation_merges_witness :
  env docsOn "FOLKTALE_DOCS" "false" ≠ "false"
  ∧ ∃ h' slotObj,
      copyDocumentation docsOn (Ref 1) (Ref 3) (Ref 5) sampleHeap
      = Some (Return Undefined, h')
      ∧ h' !! 3%positive
        = Some (<[mm := Ref (fresh (dom sampleHeap))]> targetObj)
      ∧ h' !! fresh (dom sampleHeap) = Some slotObj
      ∧ slotObj !! KString "a" = Some (Number 1)
      ∧ slotObj !! KString "b" = Some (Number 3)
      ∧ slotObj !! KString "c" = Some (Number 4)
      ∧ slotObj !! KString "z" = None.
Proof.
  split; [exact docsOn_enabled |].
  destruct (copyDocumentation_merges docsOn 1 3 (Ref 5) sampleHeap
              sourceObj targetObj sourceMeta extensionsObj (Ref 2)
              docsOn_enabled sampleHeap_1 sampleHeap_3
              (lookup_singleton_eq mm (Ref 2)) eq_refl
              sampleHeap_2 sampleHeap_5)
    as (h' & Hcall & _ & Htarget & Hslot & Hkeys & _).
  exists h', (extensionsObj ∪ sourceMeta).
  split; [exact Hcall |]. split; [exact Htarget |]. split; [exact Hslot |].
  rewrite !Hkeys. unfold extensionsObj, sourceMeta.
  repeat split; by simplify_map_eq.
Defined.

(** C10. The new slot object is built from [source]'s slot and [extensions]
    alone: a key of the object that [target]'s slot referred to before, which
    is neither in [source]'s slot nor in [extensions], is not in the new slot
    object, and that older object itself is left as it was.  When [source]
    has no slot the call succeeds and [target]'s slot refers to a newly
    allocated object, distinct from [extensions], holding the properties of
    [extensions] and nothing else. *)
Theorem copyDocumentation_replaces penv source target extensions (h : heap)
    (sobj tobj eprops : obj) :
  env penv "FOLKTALE_DOCS" "false" ≠ "false" →
  h !! source = Some sobj →
  h !! target = Some tobj →
  ownProps h extensions = Some eprops →
  let l := fresh (dom h) in
  (∀ slot smeta,
     sobj !! mm = Some slot → truthy slot = true →
     ownProps h slot = Some smeta →
     ∃ h',
       copyDocumentation penv (Ref source) (Ref target) extensions h
       = Some (Return Undefined, h')
       ∧ h' !! target = Some (<[mm := Ref l]> tobj)
       ∧ h' !! l = Some (eprops ∪ smeta)
       ∧ (∀ ol old k,
            tobj !! mm = Some (Ref ol) → h !! ol = Some old →
            is_Some (old !! k) →
            eprops !! k = None → smeta !! k = None →
            (eprops ∪ smeta) !! k = None
            ∧ l ≠ ol
            ∧ (ol ≠ target → h' !! ol = Some old)))
  ∧ (sobj !! mm = None →
     ∃ h',
       copyDocumentation penv (Ref source) (Ref target) extensions h
       = Some (Return Undefined, h')
       ∧ h' !! target = Some (<[mm := Ref l]> tobj)
       ∧ h' !! l = Some eprops
       ∧ h !! l = None
       ∧ extensions ≠ Ref l).
Proof.
  intros Hon Hs Ht Hext l.
  assert (h !! l = None) as Hfresh by apply fresh_unallocated.
  split.
  - intros slot smeta Hslot Htruthy Hmeta. eexists. split.
    { apply (copyDocumentation_enabled penv source target extensions h
               sobj tobj smeta eprops); try done.
      rewrite Hslot. cbn. by rewrite Htruthy. }
    destruct (copyDocumentation_heap h target tobj (eprops ∪ smeta) Ht)
      as (H1 & H2 & H3).
    split; [done |]. split; [done |].
    intros ol old k Hol Hold _ He Hm.
    assert (l ≠ ol) as Hne by (intros E; rewrite E in Hfresh; congruence).
    split; [by rewrite overlay_lookup, He |]. split; [done |].
    intros Hot. by rewrite H3.
  - intros Hnone. eexists. split.
    { apply (copyDocumentation_enabled penv source target extensions h
               sobj tobj ∅ eprops); try done.
      by rewrite Hnone. }
    destruct (copyDocumentation_heap h target tobj (eprops ∪ ∅) Ht)
      as (H1 & H2 & H3).
    unfold l in *.
    split; [done |]. split; [by rewrite H2, (right_id_L ∅ (∪)) |].
    split; [done |].
    intros ->. cbn in Hext. congruence.
Qed.

Lemma copyDocumentation_replaces_witness :
  env docsOn "FOLKTALE_DOCS" "false" ≠ "false"
  ∧ ∃ h',
      copyDocumentation docsOn (Ref 6) (Ref 3) (Ref 5) sampleHeap
      = Some (Return Undefined, h')
      ∧ h' !! 3%positive
        = Some (<[mm := Ref (fresh (dom sampleHeap))]> targetObj)
      ∧ h' !! fresh (dom sampleHeap) = Some extensionsObj
      ∧ Ref 5 ≠ Ref (fresh (dom sampleHeap)).
Proof.
  split; [exact docsOn_enabled |].
  destruct (proj2 (copyDocumentation_replaces docsOn 6 3 (Ref 5) sampleHeap
              ∅ targetObj extensionsObj
              docsOn_enabled sampleHeap_6 sampleHeap_3 sampleHeap_5)
              (lookup_empty mm))
    as (h' & Hcall & Htarget & Hslot & _ & Hne).
  exists h'. split; [exact Hcall |]. split; [exact Htarget |].
  split; [exact Hslot | exact Hne].
Defined.

(** *** Further cases *)

Example disabled_by_text :
  copyDocumentation docsOff (Ref 1) (Ref 3) (Ref 5) sampleHeap
  = Some (Return Undefined, sampleHeap).
Proof.
  apply copyDocumentation_skipped. unfold env, docsOff.
  by rewrite lookup_singleton_eq.
Qed.

Example source_undefined :
  copyDocumentation docsOn Undefined (Ref 3) (Ref 5) sampleHeap
  = Some (Throw TypeError, sampleHeap).
Proof. apply copyDocumentation_no_source; [exact docsOn_enabled | by left]. Qed.

(** A string in the slot contributes its characters. *)
Example string_slot_characters :
  stringProps "ab" !! KString "1" = Some (Str "b").
Proof. reflexivity. Qed.

End DocsTheory.

(** ** Further properties of the curry engine *)

Module CurryExtras.

Import Curry CurryTheory.

Section Unrolling.

Context {H W : Type}.
Variable host : H → list (value H) → W → completion H * W.

Implicit Types (fuel : nat) (arity : Z) (fn f v : value H).
Implicit Types (A N args : list (value H)) (st : state H W).

(** [slice] with a negative index counts from the end. *)
Lemma slice_first_negative (a : list (value H)) (n : Z) :
  (n < 0)%Z →
  Array_slice a 0 (Some n) = take (Z.to_nat (Z.of_nat (length a) + n)) a.
Proof.
  intros Hn. unfold Array_slice, relIndex. settle_tests.
  change (0 <? 0)%Z with false. cbv iota.
  rewrite (Z.min_l 0) by lia. rewrite drop_0. f_equal. lia.
Qed.

Lemma slice_rest_negative (a : list (value H)) (n : Z) :
  (n < 0)%Z →
  Array_slice a n None = drop (Z.to_nat (Z.of_nat (length a) + n)) a.
Proof.
  intros Hn. unfold Array_slice, relIndex. settle_tests.
  replace (Z.to_nat (Z.max (Z.of_nat (length a) + n) 0))
    with (Z.to_nat (Z.of_nat (length a) + n)) by lia.
  apply take_ge. rewrite length_drop. lia.
Qed.

(** X1. Arguments may be handed over in two calls instead of one: as long
    as the first call does not go beyond the arity, and is not followed by an
    empty call once the arity is reached, [c(...N1, ...N2)] and
    [c(...N1)(...N2)] have the same outcome.  (The two sides nest their calls
    differently; one more level of fuel covers the difference.) *)
Theorem unroll_as_two_calls fuel arity fn A N1 N2 st r :
  (Z.of_nat (length A + length N1) ≤ arity)%Z →
  (Z.of_nat (length A + length N1) < arity)%Z ∨ N2 ≠ [] →
  (call host (S fuel) (curried arity fn A) (N1 ++ N2) st = Some r →
   callSeq host (S fuel) (curried arity fn A) [N1; N2] st = Some r)
  ∧ (callSeq host (S fuel) (curried arity fn A) [N1; N2] st = Some r →
     call host (S (S fuel)) (curried arity fn A) (N1 ++ N2) st = Some r).
Proof.
  intros Hle Hsplit. unfold curried. cbn [callSeq].
  destruct (decide (Z.of_nat (length A + length N1) < arity)%Z) as [Hlt | Hge].
  - assert (∀ k, andThen (call host (S fuel) (VCurried arity fn A) N1)
                   (λ v, andThen (call host (S fuel) v N2) k) st
                 = andThen (call host (S fuel) (VCurried arity fn A) (N1 ++ N2))
                     k st) as Heq.
    { intros k. unfold andThen at 1. rewrite call_waiting by done.
      unfold andThen. by rewrite call_shift. }
    rewrite Heq, andThen_ret. split; [done |]. apply call_fuel_mono.
  - destruct Hsplit as [? | Hne]; [done |].
    assert (0 < length N2) as Hpos by (destruct N2; [done | cbn; lia]).
    assert (take (Z.to_nat arity) (A ++ N1 ++ N2) = A ++ N1) as Htake.
    { rewrite (assoc_L (++)). apply take_app_length'.
      rewrite length_app. lia. }
    assert (drop (Z.to_nat arity) (A ++ N1 ++ N2) = N2) as Hdrop.
    { rewrite (assoc_L (++)). apply drop_app_length'.
      rewrite length_app. lia. }
    assert (andThen (call host (S fuel) (VCurried arity fn A) N1)
              (λ v, andThen (call host (S fuel) v N2) (λ v0, ret v0)) st
            = andThen (call host fuel fn (A ++ N1))
                (λ V, call host (S fuel) V N2) st) as ->.
    { unfold andThen at 1. rewrite call_exact by lia. unfold andThen.
      destruct (call host fuel fn (A ++ N1) st) as [[[V|e] s1]|]; try done.
      by destruct (call host (S fuel) V N2 s1) as [[[] ?]|]. }
    rewrite !call_overflow by (rewrite ?length_app; lia).
    rewrite Htake, Hdrop. unfold andThen. split.
    + destruct (call host fuel fn (A ++ N1) st) as [[[V|e] s1]|]; [| done ..].
      apply call_fuel_mono.
    + destruct (call host fuel fn (A ++ N1) st) as [[[V|e] s1]|] eqn:E;
        [| | done]; by rewrite (call_fuel_mono host _ _ _ _ _ E).
Qed.

(** X2. Unrolling goes on through curried intermediates.  When the target,
    called on the first [arity] arguments, returns a function curried by
    this library with arity [b], the remaining arguments follow that
    function's own protocol: exactly [b] of them invoke its target [g], and
    more than [b] of them invoke [g] on the first [b] and apply its result to
    the rest. *)
Theorem unroll_through_curried fuel arity fn A N b g st st1 :
  (0 ≤ arity)%Z →
  (arity < Z.of_nat (length A + length N))%Z →
  let First := take (Z.to_nat arity) (A ++ N) in
  let Rest := drop (Z.to_nat arity) (A ++ N) in
  call host fuel fn First st = Some (Return (curry b g), st1) →
  (Z.of_nat (length Rest) = b →
   call host (S (S fuel)) (curried arity fn A) N st
   = call host fuel g Rest st1)
  ∧ ((0 ≤ b)%Z → (b < Z.of_nat (length Rest))%Z →
     call host (S (S fuel)) (curried arity fn A) N st
     = andThen (call host fuel g (take (Z.to_nat b) Rest))
               (λ V, call host fuel V (drop (Z.to_nat b) Rest)) st1).
Proof.
  intros H0 Hgt First Rest Hfn.
  assert (call host (S (S fuel)) (curried arity fn A) N st
          = call host (S fuel) (VCurried b g []) Rest st1) as ->.
  { unfold curried. rewrite call_overflow by done. fold First Rest.
    unfold andThen. by rewrite (call_fuel_mono host _ _ _ _ _ Hfn). }
  split.
  - intros Hb. by rewrite call_exact.
  - intros Hb0 Hb. by rewrite call_overflow.
Qed.

(** X4. With a negative arity a continuation never waits: whatever the
    arguments, the target is called on all of them but the last [-arity],
    and its result is applied to those last ones ([slice] counts a negative
    index from the end). *)
Theorem negative_arity_never_waits fuel arity fn A N st :
  (arity < 0)%Z →
  let All := A ++ N in
  let k := Z.to_nat (Z.of_nat (length All) + arity) in
  call host (S fuel) (curried arity fn A) N st
  = andThen (call host fuel fn (take k All))
            (λ V, call host fuel V (drop k All)) st.
Proof.
  intros Hneg All k. unfold curried. cbn [call].
  unfold curriedBody, unrollInvoke, Array_concat. fold All.
  settle_tests. by rewrite slice_first_negative, slice_rest_negative.
Qed.

(** X5. Calls without arguments never get a waiting continuation any
    further: after any number of them the continuation is the same and
    nothing has been invoked. *)
Theorem empty_calls_wait fuel arity fn A (k : nat) st :
  (Z.of_nat (length A) < arity)%Z →
  callSeq host (S fuel) (curried arity fn A) (replicate k []) st
  = Some (Return (curried arity fn A), st).
Proof.
  intros Hlt. unfold curried. induction k as [|k IH]; [done |].
  cbn [replicate callSeq]. unfold andThen.
  rewrite call_waiting by (cbn [length]; lia).
  by rewrite (right_id_L [] (++)).
Qed.

(** X10. Currying an already curried function with the same arity changes
    nothing for a call that reaches the arity: [curry(n, curry(n, fn))] and
    [curry(n, fn)] have the same outcome, the target being invoked once on
    the same arguments.  (The twice-curried function nests one call more.) *)
Theorem curry_twice fuel arity fn A N st r :
  (0 ≤ arity)%Z →
  (arity ≤ Z.of_nat (length A + length N))%Z →
  (call host (S fuel) (curried arity fn A) N st = Some r →
   call host (S (S fuel)) (curried arity (curry arity fn) A) N st = Some r)
  ∧ (call host (S (S fuel)) (curried arity (curry arity fn) A) N st = Some r →
     call host (S (S fuel)) (curried arity fn A) N st = Some r).
Proof.
  intros H0 Hle. unfold curry, curried.
  destruct (decide (Z.of_nat (length A + length N) = arity)) as [Heq | Hne].
  - rewrite !(call_exact host _ arity _ A N st Heq).
    rewrite (call_exact host fuel arity fn [] (A ++ N) st)
      by (cbn [length]; rewrite length_app; lia).
    cbn [app]. split; [done |]. apply call_fuel_mono.
  - assert (Z.of_nat (length (@nil (value H)) +
              length (take (Z.to_nat arity) (A ++ N))) = arity) as Hfirst
      by (cbn [length]; rewrite length_take, length_app; lia).
    assert (call host (S (S fuel)) (VCurried arity (VCurried arity fn []) A)
              N st
            = andThen (call host fuel fn (take (Z.to_nat arity) (A ++ N)))
                (λ V, call host (S fuel) V (drop (Z.to_nat arity) (A ++ N)))
                st) as ->.
    { rewrite call_overflow by lia. unfold andThen.
      by rewrite call_exact by exact Hfirst. }
    rewrite !call_overflow by lia. unfold andThen. split.
    + destruct (call host fuel fn _ st) as [[[V|e] s1]|]; [| done ..].
      apply call_fuel_mono.
    + destruct (call host fuel fn _ st) as [[[V|e] s1]|] eqn:E; [| | done];
        by rewrite (call_fuel_mono host _ _ _ _ _ E).
Qed.

End Unrolling.

Lemma curry_twice_witness :
  (0 ≤ 2)%Z
  ∧ call sampleHost 3 (curried 2 (curry 2 (VHost F)) [VNumber 1])
      [VNumber 2; VNumber 3] sampleStart
    = Some (Return (VNumber 6),
            mkState tt [(F, [VNumber 1; VNumber 2]); (AddTo 3, [VNumber 3])]).
Proof.
  split; [done |].
  apply (proj1 (curry_twice sampleHost 1 2 (VHost F) [VNumber 1]
           [VNumber 2; VNumber 3] sampleStart _
           ltac:(done) ltac:(cbn; lia))).
  reflexivity.
Defined.

Lemma unroll_as_two_calls_witness :
  callSeq sampleHost 2 (curried 2 (VHost F) [])
    [[VNumber 1; VNumber 2]; [VNumber 3]] sampleStart
  = Some (Return (VNumber 6),
          mkState tt [(F, [VNumber 1; VNumber 2]); (AddTo 3, [VNumber 3])]).
Proof.
  apply (proj1 (unroll_as_two_calls sampleHost 1 2 (VHost F) []
           [VNumber 1; VNumber 2] [VNumber 3] sampleStart _
           ltac:(reflexivity) ltac:(by right))).
  reflexivity.
Defined.

Lemma unroll_through_curried_witness :
  call chainHost 3 (curried 1 (VHost Outer) [])
    [VNumber 1; VNumber 2; VNumber 3] (mkState tt [])
  = Some (Return (VNumber 6),
          mkState tt [(Outer, [VNumber 1]); (Inner 1, [VNumber 2]);
                      (Last 3, [VNumber 3])]).
Proof.
  rewrite (proj2 (unroll_through_curried chainHost 1 1 (VHost Outer) []
             [VNumber 1; VNumber 2; VNumber 3] 1 (VHost (Inner 1))
             (mkState tt []) (mkState tt [(Outer, [VNumber 1])])
             ltac:(done) ltac:(reflexivity) eq_refl)
             ltac:(done) ltac:(reflexivity)).
  reflexivity.
Defined.

Lemma negative_arity_never_waits_witness :
  (-1 < 0)%Z
  ∧ call sampleHost 2 (curried (-1) (VHost F) [])
      [VNumber 1; VNumber 2; VNumber 3] sampleStart
    = Some (Return (VNumber 6),
            mkState tt [(F, [VNumber 1; VNumber 2]); (AddTo 3, [VNumber 3])]).
Proof.
  split; [done |].
  rewrite (negative_arity_never_waits sampleHost 1 (-1) (VHost F) []
             [VNumber 1; VNumber 2; VNumber 3] sampleStart ltac:(done)).
  reflexivity.
Defined.

Lemma empty_calls_wait_witness :
  (Z.of_nat (length [VNumber 1 : value sampleFn]) < 2)%Z
  ∧ callSeq sampleHost 1 (curried 2 (VHost Add) [VNumber 1]) [[]; []; []]
      sampleStart
    = Some (Return (curried 2 (VHost Add) [VNumber 1]), sampleStart).
Proof.
  split; [reflexivity |].
  apply (empty_calls_wait sampleHost 0 2 (VHost Add) [VNumber 1] 3
           sampleStart).
  reflexivity.
Defined.

End CurryExtras.

(** ** Further properties of the documentation copier *)

Module DocsExtras.

Import Docs DocsTheory.

(** An allocated object other than the target is where it was after a
    copy. *)
Lemma lookup_after_copy (h : heap) target (tobj' merged o : obj) x :
  h !! x = Some o →
  x ≠ target →
  (<[target := tobj']> (<[fresh (dom h) := merged]> h)) !! x = Some o.
Proof.
  intros Hx Hne.
  assert (x ≠ fresh (dom h)) as Hfresh.
  { intros ->. by rewrite fresh_unallocated in Hx. }
  by rewrite !lookup_insert_ne.
Qed.

(** What [Object.assign] copies from a value other than the target is the
    same after a copy. *)
Lemma ownProps_after_copy (h : heap) target (tobj' merged o : obj) v :
  ownProps h v = Some o →
  v ≠ Ref target →
  ownProps (<[target := tobj']> (<[fresh (dom h) := merged]> h)) v = Some o.
Proof.
  intros Hv Hne. destruct v as [| | | | |x]; try done.
  cbn in *. apply lookup_after_copy; [done | congruence].
Qed.

(** X6. With the copy enabled, a [source] that is [undefined] or [null]
    makes the call raise a TypeError, and so does a [target] that is
    [undefined] or [null] once the slot of [source] and [extensions] have
    been read.  In both cases the heap is left as it was. *)
Theorem copyDocumentation_nullish penv source target extensions (h : heap) :
  env penv "FOLKTALE_DOCS" "false" ≠ "false" →
  (source = Undefined ∨ source = Null →
   copyDocumentation penv source target extensions h
   = Some (Throw TypeError, h))
  ∧ (target = Undefined ∨ target = Null →
     ∀ slot (src eprops : obj),
       readSlot h source = Some (Return slot) →
       (if truthy slot then ownProps h slot else Some ∅) = Some src →
       ownProps h extensions = Some eprops →
       copyDocumentation penv source target extensions h
       = Some (Throw TypeError, h)).
Proof.
  intros Hon. split; [by apply copyDocumentation_no_source |].
  intros Htarget slot src eprops Hslot Hsrc Hext.
  unfold copyDocumentation. rewrite decide_True by done.
  rewrite Hslot, Hsrc. cbn [mbind option_bind].
  rewrite extensions_default, Hext. cbn [mbind option_bind].
  by destruct Htarget as [-> | ->].
Qed.

(** X7. A slot of [source] that holds [undefined], [null], [false], [0] or
    the empty string counts as no slot: the new slot object of [target]
    holds the properties of [extensions] and nothing else. *)
Theorem falsy_slot_ignored penv source target extensions (h : heap)
    (sobj tobj eprops : obj) slot :
  env penv "FOLKTALE_DOCS" "false" ≠ "false" →
  h !! source = Some sobj →
  sobj !! mm = Some slot →
  slot ∈ [Undefined; Null; Bool false; Number 0; Str ""] →
  h !! target = Some tobj →
  ownProps h extensions = Some eprops →
  copyDocumentation penv (Ref source) (Ref target) extensions h
  = Some (Return Undefined,
          <[target := <[mm := Ref (fresh (dom h))]> tobj]>
            (<[fresh (dom h) := eprops]> h)).
Proof.
  intros Hon Hs Hslot Hfalsy Ht Hext.
  assert (truthy slot = false) as Hf.
  { repeat (apply elem_of_cons in Hfalsy as [-> | Hfalsy]; [done |]).
    by apply elem_of_nil in Hfalsy. }
  rewrite (copyDocumentation_enabled penv source target extensions h
             sobj tobj ∅ eprops); try done.
  - by rewrite (right_id_L ∅ (∪)).
  - rewrite Hslot. cbn. by rewrite Hf.
Qed.

(** X8. Copying twice is copying once: after a second call with the same
    arguments [target]'s slot refers to another new object with the same
    properties as after the first call.  ([source] and [target] are
    different objects, and neither [source]'s slot nor [extensions] is the
    target object.) *)
Theorem copyDocumentation_twice penv source target extensions (h : heap)
    (sobj tobj smeta eprops : obj) slot :
  env penv "FOLKTALE_DOCS" "false" ≠ "false" →
  source ≠ target →
  h !! source = Some sobj →
  h !! target = Some tobj →
  sobj !! mm = Some slot →
  truthy slot = true →
  ownProps h slot = Some smeta →
  slot ≠ Ref target →
  ownProps h extensions = Some eprops →
  extensions ≠ Ref target →
  ∃ (h1 h2 : heap) l1 l2,
    copyDocumentation penv (Ref source) (Ref target) extensions h
    = Some (Return Undefined, h1)
    ∧ copyDocumentation penv (Ref source) (Ref target) extensions h1
      = Some (Return Undefined, h2)
    ∧ h1 !! target = Some (<[mm := Ref l1]> tobj)
    ∧ h1 !! l1 = Some (eprops ∪ smeta)
    ∧ h2 !! target = Some (<[mm := Ref l2]> tobj)
    ∧ h2 !! l2 = Some (eprops ∪ smeta)
    ∧ l1 ≠ l2.
Proof.
  intros Hon Hst Hs Ht Hslot Htruthy Hmeta Hslot_ne Hext Hext_ne.
  set (l1 := fresh (dom h)).
  set (h1 := <[target := <[mm := Ref l1]> tobj]>
               (<[l1 := eprops ∪ smeta]> h)).
  set (l2 := fresh (dom h1)).
  set (h2 := <[target := <[mm := Ref l2]> (<[mm := Ref l1]> tobj)]>
               (<[l2 := eprops ∪ smeta]> h1)).
  destruct (copyDocumentation_heap h target tobj (eprops ∪ smeta) Ht)
    as (Ht1 & Hl1 & _). fold l1 h1 in Ht1, Hl1.
  destruct (copyDocumentation_heap h1 target (<[mm := Ref l1]> tobj)
              (eprops ∪ smeta) Ht1) as (Ht2 & Hl2 & _).
  fold l2 h2 in Ht2, Hl2.
  exists h1, h2, l1, l2. split; [| split].
  - apply (copyDocumentation_enabled penv source target extensions h
             sobj tobj smeta eprops); try done.
    rewrite Hslot. cbn. by rewrite Htruthy.
  - apply (copyDocumentation_enabled penv source target extensions h1
             sobj (<[mm := Ref l1]> tobj) smeta eprops); try done.
    + by apply lookup_after_copy.
    + rewrite Hslot. cbn. rewrite Htruthy. by apply ownProps_after_copy.
    + by apply ownProps_after_copy.
  - split; [done |]. split; [done |].
    split; [by rewrite Ht2, insert_insert_eq |]. split; [done |].
    intros E. pose proof (fresh_unallocated h1) as Hf. fold l2 in Hf.
    rewrite <- E in Hf. congruence.
Qed.

(** X9. Copies compose.  After a copy from [a] to [b] with [ext1] and a copy
    from [b] to [c] with [ext2], the slot of [c] holds the properties of
    [a]'s slot overlaid with those of [ext1] and then those of [ext2]: a key
    has the value of the last of the three that has it. *)
Theorem copyDocumentation_chain penv a b c ext1 ext2 (h : heap)
    (aobj bobj cobj smeta e1 e2 : obj) slot :
  env penv "FOLKTALE_DOCS" "false" ≠ "false" →
  b ≠ c →
  h !! a = Some aobj →
  h !! b = Some bobj →
  h !! c = Some cobj →
  aobj !! mm = Some slot →
  truthy slot = true →
  ownProps h slot = Some smeta →
  ownProps h ext1 = Some e1 →
  ownProps h ext2 = Some e2 →
  ext2 ≠ Ref b →
  ∃ (h1 h2 : heap) l2,
    copyDocumentation penv (Ref a) (Ref b) ext1 h
    = Some (Return Undefined, h1)
    ∧ copyDocumentation penv (Ref b) (Ref c) ext2 h1
      = Some (Return Undefined, h2)
    ∧ h2 !! c = Some (<[mm := Ref l2]> cobj)
    ∧ h2 !! l2 = Some (e2 ∪ (e1 ∪ smeta))
    ∧ (∀ k, (e2 ∪ (e1 ∪ smeta)) !! k
            = match e2 !! k with
              | Some v => Some v
              | None => match e1 !! k with
                        | Some v => Some v
                        | None => smeta !! k
                        end
              end).
Proof.
  intros Hon Hbc Ha Hb Hc Hslot Htruthy Hmeta He1 He2 Hext2.
  set (l1 := fresh (dom h)).
  set (h1 := <[b := <[mm := Ref l1]> bobj]> (<[l1 := e1 ∪ smeta]> h)).
  set (l2 := fresh (dom h1)).
  destruct (copyDocumentation_heap h b bobj (e1 ∪ smeta) Hb)
    as (Hb1 & Hl1 & _). fold l1 h1 in Hb1, Hl1.
  assert (h1 !! c = Some cobj) as Hc1
    by (apply lookup_after_copy; [done | congruence]).
  destruct (copyDocumentation_heap h1 c cobj (e2 ∪ (e1 ∪ smeta)) Hc1)
    as (Hc2 & Hl2 & _). fold l2 in Hc2, Hl2.
  exists h1, (<[c := <[mm := Ref l2]> cobj]>
               (<[l2 := e2 ∪ (e1 ∪ smeta)]> h1)), l2.
  split; [| split].
  - apply (copyDocumentation_enabled penv a b ext1 h
             aobj bobj smeta e1); try done.
    rewrite Hslot. cbn. by rewrite Htruthy.
  - apply (copyDocumentation_enabled penv b c ext2 h1
             (<[mm := Ref l1]> bobj) cobj (e1 ∪ smeta) e2); try done.
    + rewrite lookup_insert_eq. cbn. exact Hl1.
    + by apply ownProps_after_copy.
  - split; [done |]. split; [done |].
    intros k. by rewrite !overlay_lookup.
Qed.

Lemma zeroSlotHeap_1 : zeroSlotHeap !! 1%positive = Some zeroSlotObj.
Proof. unfold zeroSlotHeap. by simplify_map_eq. Qed.

Lemma zeroSlotHeap_2 : zeroSlotHeap !! 2%positive = Some ∅.
Proof. unfold zeroSlotHeap. by simplify_map_eq. Qed.

Lemma copyDocumentation_nullish_witness :
  env docsOn "FOLKTALE_DOCS" "false" ≠ "false"
  ∧ copyDocumentation docsOn (Ref 1) Null (Ref 5) sampleHeap
    = Some (Throw TypeError, sampleHeap).
Proof.
  split; [exact docsOn_enabled |].
  apply (proj2 (copyDocumentation_nullish docsOn (Ref 1) Null (Ref 5)
                  sampleHeap docsOn_enabled)
           (or_intror eq_refl) (Ref 2) sourceMeta extensionsObj).
  - unfold readSlot. rewrite sampleHeap_1. cbn [mbind option_bind].
    unfold sourceObj. by rewrite lookup_singleton_eq.
  - exact sampleHeap_2.
  - exact sampleHeap_5.
Defined.

Lemma falsy_slot_ignored_witness :
  Number 0 ∈ [Undefined; Null; Bool false; Number 0; Str ""]
  ∧ copyDocumentation docsOn (Ref 1) (Ref 2) Undefined zeroSlotHeap
    = Some (Return Undefined,
            <[2%positive := <[mm := Ref (fresh (dom zeroSlotHeap))]> ∅]>
              (<[fresh (dom zeroSlotHeap) := ∅]> zeroSlotHeap)).
Proof.
  assert (Number 0 ∈ [Undefined; Null; Bool false; Number 0; Str ""])
    as Hin by (do 3 right; left).
  split; [exact Hin |].
  exact (falsy_slot_ignored docsOn 1 2 Undefined zeroSlotHeap
           zeroSlotObj ∅ ∅ (Number 0) docsOn_enabled zeroSlotHeap_1
           (lookup_singleton_eq mm (Number 0)) Hin zeroSlotHeap_2 eq_refl).
Defined.

Lemma copyDocumentation_twice_witness :
  (1 ≠ 3)%positive
  ∧ ∃ (h1 h2 : heap) l1 l2,
      copyDocumentation docsOn (Ref 1) (Ref 3) (Ref 5) sampleHeap
      = Some (Return Undefined, h1)
      ∧ copyDocumentation docsOn (Ref 1) (Ref 3) (Ref 5) h1
        = Some (Return Undefined, h2)
      ∧ h1 !! l1 = Some (extensionsObj ∪ sourceMeta)
      ∧ h2 !! l2 = Some (extensionsObj ∪ sourceMeta)
      ∧ l1 ≠ l2.
Proof.
  split; [done |].
  destruct (copyDocumentation_twice docsOn 1 3 (Ref 5) sampleHeap
              sourceObj targetObj sourceMeta extensionsObj (Ref 2)
              docsOn_enabled ltac:(done) sampleHeap_1 sampleHeap_3
              (lookup_singleton_eq mm (Ref 2)) eq_refl sampleHeap_2
              ltac:(done) sampleHeap_5 ltac:(done))
    as (h1 & h2 & l1 & l2 & H1 & H2 & _ & Hl1 & _ & Hl2 & Hne).
  by exists h1, h2, l1, l2.
Defined.

Lemma copyDocumentation_chain_witness :
  (3 ≠ 6)%positive
  ∧ ∃ (h1 h2 : heap) l2,
      copyDocumentation docsOn (Ref 1) (Ref 3) (Ref 5) sampleHeap
      = Some (Return Undefined, h1)
      ∧ copyDocumentation docsOn (Ref 3) (Ref 6) Undefined h1
        = Some (Return Undefined, h2)
      ∧ h2 !! 6%positive = Some (<[mm := Ref l2]> ∅)
      ∧ h2 !! l2 = Some (∅ ∪ (extensionsObj ∪ sourceMeta)).
Proof.
  split; [done |].
  destruct (copyDocumentation_chain docsOn 1 3 6 (Ref 5) Undefined sampleHeap
              sourceObj targetObj ∅ sourceMeta extensionsObj ∅ (Ref 2)
              docsOn_enabled ltac:(done) sampleHeap_1 sampleHeap_3
              sampleHeap_6 (lookup_singleton_eq mm (Ref 2)) eq_refl
              sampleHeap_2 sampleHeap_5 eq_refl ltac:(done))
    as (h1 & h2 & l2 & H1 & H2 & Hc & Hl2 & _).
  by exists h1, h2, l2.
Defined.

End DocsExtras.
